(** * gomusicbrainz: a shallow embedding of the WS2 search client

    The Go package builds one GET request per search, decodes the XML
    answer into a list wrapper and flattens the wrapper into a public
    response.  The embedding follows [gomusicbrainz.go] function by
    function.  What the package takes from Go's standard library is either
    modelled after its documented behaviour ([strconv.Itoa],
    [url.QueryEscape], [url.Values.Encode], [http.NewRequest]) or taken as
    a parameter of the development ([url.Parse], [URL.String],
    [http.Client.Do], [xml.Decoder.Decode]). *)

From stdpp Require Import gmap strings list fin_maps sorting.
From Stdlib Require Import ZArith Ascii DecimalString DecimalPos DecimalZ.

Open Scope Z_scope.

(** ** Go values *)

(** Go's [error] values, tagged by the call that produced them:
    [url.Parse] in the constructor and in [SetRootURL], [http.NewRequest],
    [http.Client.Do] and [xml.Decoder.Decode]. *)
Inductive error : Type :=
  | InvalidRootAddress (msg : string)
  | RequestFailure (msg : string)
  | TransportFailure (msg : string)
  | DecodeFailure (msg : string).

(** What a call does to the process: it returns, it ends the process
    through [log.Fatalln], or it panics at run time. *)
Inductive outcome (A : Type) : Type :=
  | Returned (a : A)
  | Fatal (e : error)
  | Panic (msg : string).
Arguments Returned {A} a.
Arguments Fatal {A} e.
Arguments Panic {A} msg.

Definition obind {A B : Type} (m : outcome A) (k : A → outcome B) : outcome B :=
  match m with
  | Returned a => k a
  | Fatal e => Fatal e
  | Panic msg => Panic msg
  end.

Global Instance outcome_ret : MRet outcome := λ A a, Returned a.
Global Instance outcome_bind : MBind outcome := λ A B k m, obind m k.

(** ** strconv and net/url *)

(** [strconv.Itoa]: the decimal representation, with a leading minus sign
    for a negative number.  Go's [int] is a machine integer; the model
    takes any integer. *)
Definition Itoa (i : Z) : string := NilZero.string_of_int (Z.to_int i).

Definition isAlnum (c : ascii) : bool :=
  let n := nat_of_ascii c in
  ((97 <=? n) && (n <=? 122) || (65 <=? n) && (n <=? 90)
   || (48 <=? n) && (n <=? 57))%nat.

(** [shouldEscape c encodeQueryComponent]: everything but the unreserved
    characters of RFC 3986 is escaped. *)
Definition shouldEscape (c : ascii) : bool :=
  if isAlnum c then false
  else if (Ascii.eqb c "-" || Ascii.eqb c "_" || Ascii.eqb c "."
           || Ascii.eqb c "~")%char then false
  else true.

Definition upperhex : string := "0123456789ABCDEF".

Definition hexDigit (n : nat) : ascii :=
  match String.get n upperhex with
  | Some d => d
  | None => "0"%char
  end.

(** [url.QueryEscape]: a space becomes [+], an escaped byte becomes [%XX]. *)
Fixpoint QueryEscape (s : string) : string :=
  match s with
  | EmptyString => EmptyString
  | String c s' =>
      if Ascii.eqb c " " then String "+" (QueryEscape s')
      else if shouldEscape c then
        String "%" (String (hexDigit (nat_of_ascii c / 16))
                      (String (hexDigit (nat_of_ascii c mod 16))
                         (QueryEscape s')))
      else String c (QueryEscape s')
  end.

(** [url.Values] is [map[string][]string]. *)
Abbreviation Values := (gmap string (list string)).

Definition key_le (a b : string * list string) : Prop :=
  String.leb a.1 b.1 = true.

Global Instance key_le_dec : RelDecision key_le :=
  λ a b, decide (String.leb a.1 b.1 = true).

(** One [key=value] pair written to the buffer of [Values.Encode]: an
    ampersand first unless the buffer is still empty. *)
Definition writePair (keyEscaped : string) (buf v : string) : string :=
  (if (0 <? String.length buf)%nat then buf +:+ "&" else buf)
    +:+ keyEscaped +:+ "=" +:+ QueryEscape v.

Definition writeKey (buf : string) (kv : string * list string) : string :=
  foldl (writePair (QueryEscape kv.1)) buf kv.2.

(** [Values.Encode]: the pairs in the order of the sorted keys. *)
Definition Encode (v : Values) : string :=
  if decide (size v = 0%nat) then ""
  else foldl writeKey "" (merge_sort key_le (map_to_list v)).

(** How the receiving side reads an encoded query string: the segments
    between ampersands, each cut at its first equals sign. *)
Fixpoint splitOn (sep : ascii) (s : string) : list string :=
  match s with
  | EmptyString => [EmptyString]
  | String c s' =>
      if Ascii.eqb c sep then EmptyString :: splitOn sep s'
      else match splitOn sep s' with
           | [] => [String c EmptyString]
           | x :: xs => String c x :: xs
           end
  end.

Fixpoint cutOn (sep : ascii) (s : string) : string * string :=
  match s with
  | EmptyString => (EmptyString, EmptyString)
  | String c s' =>
      if Ascii.eqb c sep then (EmptyString, s')
      else let '(a, b) := cutOn sep s' in (String c a, b)
  end.

Definition parseQuery (q : string) : list (string * string) :=
  cutOn "=" <$> splitOn "&" q.

Definition queryKeys (q : string) : list string := fst <$> parseQuery q.

(** Whether a character occurs in a string. *)
Fixpoint occurs (c : ascii) (s : string) : bool :=
  match s with
  | EmptyString => false
  | String d s' => Ascii.eqb d c || occurs c s'
  end.

(** Strings [QueryEscape] leaves as they are: no space and no character
    to escape. *)
Fixpoint plain (s : string) : bool :=
  match s with
  | EmptyString => true
  | String c s' => negb (Ascii.eqb c " ") && negb (shouldEscape c) && plain s'
  end.

(** ** The request parameters of a search *)

(** [intParamToString] returns an empty string for -1. *)
Definition intParamToString (i : Z) : string :=
  if decide (i = -1) then "" else Itoa i.

(** The [url.Values] literal of [searchRequest]. *)
Definition searchParams (searchTerm : string) (limit offset : Z) : Values :=
  <["offset" := [intParamToString offset]]>
    (<["limit" := [intParamToString limit]]>
       (<["query" := [searchTerm]]> ∅)).

(** ** The client *)

(** [http.Response], as far as the package reads it: the status code is
    never looked at, the body is handed to the XML decoder. *)
Record Response : Type := mkResponse { StatusCode : Z; Body : string }.

Section WS2.

(** Parsed URLs, [url.Parse] (which returns a nil URL together with its
    error) and the [String] method of a URL. *)
Context {URL : Type}.
Context (url_Parse : string → URL + string).
Context (URL_String : URL → string).

(** [WS2Client]: [WS2RootURL] is a pointer and may be nil. *)
Record WS2Client : Type := mkWS2Client {
  WS2RootURL : option URL;
  userAgentHeader : string
}.

Record Request : Type := mkRequest {
  Method : string;
  ReqURL : URL;
  Header : gmap string (list string)
}.

(** The network: what [http.Client.Do] answers to a request. *)
Context (http_Do : Request → Response + string).

(** [http.NewRequest]: ["GET"] is a valid method, so the only failure is
    the parse of the target. *)
Definition http_NewRequest (method rawurl : string) : Request + error :=
  match url_Parse rawurl with
  | inl u => inl {| Method := method; ReqURL := u; Header := ∅ |}
  | inr msg => inr (RequestFailure msg)
  end.

(** [req.Header.Set key value] for a key in canonical form. *)
Definition Header_Set (req : Request) (key value : string) : Request :=
  {| Method := Method req; ReqURL := ReqURL req;
     Header := <[key := [value]]> (Header req) |}.

(** [NewWS2Client]: the error of [url.Parse] is dropped. *)
Definition NewWS2Client (rooturl appname version contact : string)
  : WS2Client :=
  {| WS2RootURL := match url_Parse rooturl with
                   | inl u => Some u
                   | inr _ => None
                   end;
     userAgentHeader :=
       appname +:+ "/" +:+ version +:+ " ( " +:+ contact +:+ " ) " |}.

(** [SetRootURL]: both results of [url.Parse] are stored and returned. *)
Definition SetRootURL (c : WS2Client) (rooturl : string)
  : WS2Client * option error :=
  match url_Parse rooturl with
  | inl u =>
      ({| WS2RootURL := Some u; userAgentHeader := userAgentHeader c |},
       None)
  | inr msg =>
      ({| WS2RootURL := None; userAgentHeader := userAgentHeader c |},
       Some (InvalidRootAddress msg))
  end.

Definition SetClientInfo (c : WS2Client)
    (application version contact : string) : WS2Client :=
  {| WS2RootURL := WS2RootURL c;
     userAgentHeader :=
       application +:+ "/" +:+ version +:+ " ( " +:+ contact +:+ " ) " |}.

(** The target handed to [http.NewRequest] by [getReqeust]. *)
Definition requestTarget (u : URL) (endpoint : string) (params : Values)
  : string :=
  URL_String u +:+ endpoint +:+ "?" +:+ Encode params.

Section Methods.

(** The entity type of one search method; it is the key type of the
    score map, so its values are comparable. *)
Context {E : Type} `{Countable E}.

(** Modelled from the spec: the pagination header [WS2ListResponse]
    (a count and an offset), declared outside this file. *)
Record WS2ListResponse : Type := mkWS2ListResponse {
  Count : Z;
  Offset : Z
}.

(** Modelled from the spec: one scored entry of a list wrapper, an
    entity with its relevance score. *)
Record scored : Type := mkScored { Entity : E; Score : Z }.

(** Modelled from the spec: the list wrapper the decoder fills, such as
    [artistListResult.ArtistList]. *)
Record listResult : Type := mkListResult {
  ListHeader : WS2ListResponse;
  Entries : list scored
}.

(** Modelled from the spec: the public response, such as
    [ArtistSearchResponse] with its [Artists] and [Scores]. *)
Record SearchResponse : Type := mkSearchResponse {
  RspHeader : WS2ListResponse;
  Entities : list E;
  Scores : gmap E Z
}.

(** The zero value [artistListResult{}]. *)
Definition zeroResult : listResult :=
  {| ListHeader := {| Count := 0; Offset := 0 |}; Entries := [] |}.

(** [xml.Decoder.Decode]: given the body and the destination, the
    destination as the decoder leaves it and the error, if any. *)
Context (xml_Decode : string → listResult → listResult * option string).

Definition getReqeust (c : WS2Client) (data : listResult)
    (params : Values) (endpoint : string)
  : outcome (listResult * option error) :=
  match WS2RootURL c with
  | None => Panic "invalid memory address or nil pointer dereference"
  | Some u =>
      match http_NewRequest "GET" (requestTarget u endpoint params) with
      | inr err => Fatal err
      | inl req =>
          let req := Header_Set req "User-Agent" (userAgentHeader c) in
          match http_Do req with
          | inr msg => Fatal (TransportFailure msg)
          | inl resp =>
              match xml_Decode (Body resp) data with
              | (data', Some msg) =>
                  Returned (data', Some (DecodeFailure msg))
              | (data', None) => Returned (data', None)
              end
          end
      end
  end.

Definition searchRequest (c : WS2Client) (endpoint : string)
    (result : listResult) (searchTerm : string) (limit offset : Z)
  : outcome (listResult * option error) :=
  '(result', err) ← getReqeust c result
                      (searchParams searchTerm limit offset) endpoint;
  match err with
  | Some e => Returned (result', Some e)
  | None => Returned (result', None)
  end.

(** One turn of the loop: append the entity, then store the score
    under the element at index [i] of the grown slice. *)
Definition flattenStep (rsp : SearchResponse) (i : nat) (v : scored)
  : outcome SearchResponse :=
  let ents := Entities rsp ++ [Entity v] in
  match ents !! i with
  | Some k =>
      Returned {| RspHeader := RspHeader rsp; Entities := ents;
                  Scores := <[k := Score v]> (Scores rsp) |}
  | None => Panic "index out of range"
  end.

Definition flattenLoop (rsp : SearchResponse) (l : list scored)
  : outcome SearchResponse :=
  foldl (λ acc iv, rsp' ← acc; flattenStep rsp' iv.1 iv.2)
        (Returned rsp) (imap pair l).

(** The body of a search method after the request. *)
Definition flatten (result : listResult) : outcome SearchResponse :=
  flattenLoop {| RspHeader := ListHeader result; Entities := [];
                 Scores := ∅ |} (Entries result).

(** The nine implemented methods differ in the endpoint and in the
    names of the fields only. *)
Definition searchEntity (endpoint : string) (c : WS2Client)
    (searchTerm : string) (limit offset : Z)
  : outcome (option SearchResponse * option error) :=
  '(result, err) ← searchRequest c endpoint zeroResult
                     searchTerm limit offset;
  rsp ← flatten result;
  mret (Some rsp, err).

Definition SearchAnnotation := searchEntity "/annotation".
Definition SearchArea := searchEntity "/area".
Definition SearchArtist := searchEntity "/artist".
Definition SearchRelease := searchEntity "/release".
Definition SearchReleaseGroup := searchEntity "/release-group".
Definition SearchTag := searchEntity "/tag".
Definition SearchCDStub := searchEntity "/cdstub".
Definition SearchLabel := searchEntity "/label".
Definition SearchPlace := searchEntity "/place".

(** The three methods without a body. *)
Definition SearchFreedb (c : WS2Client) (searchTerm : string)
    (limit offset : Z) : outcome (option SearchResponse * option error) :=
  Returned (None, None).

Definition SearchRecording (c : WS2Client) (searchTerm : string)
    (limit offset : Z) : outcome (option SearchResponse * option error) :=
  Returned (None, None).

Definition SearchWork (c : WS2Client) (searchTerm : string)
    (limit offset : Z) : outcome (option SearchResponse * option error) :=
  Returned (None, None).

(** The score map the loop builds, entry by entry. *)
Definition putScore (m : gmap E Z) (v : scored) : gmap E Z :=
  <[Entity v := Score v]> m.

Definition scoresOf (l : list scored) : gmap E Z := foldl putScore ∅ l.

(** The response a search method builds from a wrapper. *)
Definition responseOf (data : listResult) : SearchResponse :=
  {| RspHeader := ListHeader data;
     Entities := Entity <$> Entries data;
     Scores := scoresOf (Entries data) |}.

End Methods.

End WS2.

(** A network whose answers carry another status code and the same body. *)
Definition withStatus {URL : Type} (status : Z)
    (http_Do : Request (URL := URL) → Response + string)
  : Request (URL := URL) → Response + string :=
  λ req, match http_Do req with
         | inl resp => inl {| StatusCode := status; Body := Body resp |}
         | inr msg => inr msg
         end.

(** ** Test doubles

    A concrete URL parser, three networks and a decoder for a handful of
    bodies, to run the client on concrete inputs. *)
Module Fixture.

(** [stringContainsCTLByte], the first check of [url.Parse]. *)
Definition isCTL (c : ascii) : bool :=
  ((nat_of_ascii c <? 32) || (nat_of_ascii c =? 127))%nat.

Fixpoint containsCTL (s : string) : bool :=
  match s with
  | EmptyString => false
  | String c s' => isCTL c || containsCTL s'
  end.

(** A stand-in for [url.Parse] with two of its checks: no control
    character, and no colon where the scheme should start.  URLs are kept
    as the text they were parsed from. *)
Definition parse (rawurl : string) : string + string :=
  if containsCTL rawurl
  then inr "net/url: invalid control character in URL"%string
  else if String.prefix ":" rawurl
  then inr "missing protocol scheme"%string
  else inl rawurl.

Definition render (u : string) : string := u.

Definition body_full : string :=
  "<metadata><artist-list count='3' offset='0'><artist score='100'><name>Nirvana</name></artist><artist score='80'><name>Nirvana UK</name></artist><artist score='60'><name>Nirvana</name></artist></artist-list></metadata>".

Definition body_truncated : string :=
  "<metadata><artist-list count='3' offset='0'><artist score='100'><name>Nirvana</name></artist><artist score='80'><na".

Definition net_full (req : Request (URL := string)) : Response + string :=
  inl {| StatusCode := 200; Body := body_full |}.

Definition net_truncated (req : Request (URL := string))
  : Response + string :=
  inl {| StatusCode := 200; Body := body_truncated |}.

Definition net_down (req : Request (URL := string)) : Response + string :=
  inr "dial tcp: connection refused"%string.

Definition entries_full : list (scored (E := string)) :=
  [ {| Entity := "Nirvana"%string; Score := 100 |};
    {| Entity := "Nirvana UK"%string; Score := 80 |};
    {| Entity := "Nirvana"%string; Score := 60 |} ].

(** The decoder on the two bodies above: the truncated body leaves the
    header and the one complete entry in the destination. *)
Definition decode (body : string) (data : listResult (E := string))
  : listResult (E := string) * option string :=
  if String.eqb body body_full then
    ({| ListHeader := {| Count := 3; Offset := 0 |};
        Entries := entries_full |}, None)
  else if String.eqb body body_truncated then
    ({| ListHeader := {| Count := 3; Offset := 0 |};
        Entries := take 1 entries_full |},
     Some "XML syntax error on line 1: unexpected EOF"%string)
  else (data, Some "EOF"%string).

(** The response to the full body: the second score of "Nirvana" has
    replaced the first. *)
Definition response_full : SearchResponse (E := string) :=
  {| RspHeader := {| Count := 3; Offset := 0 |};
     Entities := ["Nirvana"; "Nirvana UK"; "Nirvana"]%string;
     Scores := {[ "Nirvana"%string := 60; "Nirvana UK"%string := 80 ]} |}.

Definition client : WS2Client (URL := string) :=
  NewWS2Client parse "https://musicbrainz.org/ws/2"
    "testapp" "1.0" "test@example.com".

(** Two root addresses that do not parse: no scheme before the colon,
    and a single control character (DEL). *)
Definition bad_address : string := "://musicbrainz.org/ws/2".

Definition ctl_address : string := String "127"%char EmptyString.

(** The one request the artist search of [client] for "Nirvana" with
    limit 5 and no offset should issue. *)
Definition expected_request : Request (URL := string) :=
  {| Method := "GET";
     ReqURL := "https://musicbrainz.org/ws/2/artist?limit=5&offset=&query=Nirvana";
     Header := {[ "User-Agent"%string
                  := ["testapp/1.0 ( test@example.com ) "%string] ]} |}.

(** A network that answers that request and refuses every other one. *)
Definition net_strict (req : Request (URL := string)) : Response + string :=
  if bool_decide (Method req = Method expected_request
                  ∧ ReqURL req = ReqURL expected_request
                  ∧ Header req = Header expected_request)
  then inl {| StatusCode := 200; Body := body_full |}
  else inr "unexpected request"%string.

End Fixture.

(** * Properties *)

(** ** Strings *)

Lemma append_nil (b : string) : "" +:+ b = b.
Proof. reflexivity. Qed.

Lemma append_cons (x : ascii) (a b : string) :
  String x a +:+ b = String x (a +:+ b).
Proof. reflexivity. Qed.

Lemma append_assoc (a b c : string) : (a +:+ b) +:+ c = a +:+ (b +:+ c).
Proof.
  induction a as [|x a IH]; [reflexivity|].
  rewrite !append_cons. by rewrite IH.
Qed.

Lemma occurs_append c a b : occurs c (a +:+ b) = occurs c a || occurs c b.
Proof.
  induction a as [|x a IH]; [reflexivity|].
  rewrite append_cons. simpl. rewrite IH. by rewrite orb_assoc.
Qed.

Lemma QueryEscape_plain s : plain s = true → QueryEscape s = s.
Proof.
  induction s as [|c s IH]; simpl; [reflexivity|].
  intros [[Hsp Hesc]%andb_prop Hs]%andb_prop.
  apply negb_true_iff in Hsp, Hesc. rewrite Hsp, Hesc. by rewrite IH.
Qed.

Lemma plain_uint (d : Decimal.uint) : plain (NilEmpty.string_of_uint d) = true.
Proof. induction d; simpl; try reflexivity; exact IHd. Qed.

Lemma plain_Itoa (i : Z) : plain (Itoa i) = true.
Proof.
  unfold Itoa, NilZero.string_of_int, NilZero.string_of_uint.
  destruct (Z.to_int i) as [d|d]; destruct d; try reflexivity;
    first [ apply (plain_uint (_ _))
          | change (plain (String "-" ?s)) with (plain s);
            apply (plain_uint (_ _)) ].
Qed.

Lemma plain_intParamToString (i : Z) : plain (intParamToString i) = true.
Proof. unfold intParamToString. case_decide; [reflexivity | apply plain_Itoa]. Qed.

Lemma hexDigit_unreserved (n : nat) : shouldEscape (hexDigit n) = false.
Proof. do 16 (destruct n as [|n]; [reflexivity|]). reflexivity. Qed.

Lemma eqb_escape_differ (c sep : ascii) :
  shouldEscape c = false → shouldEscape sep = true → Ascii.eqb c sep = false.
Proof.
  intros Hc Hsep. apply Ascii.eqb_neq. intros ->. congruence.
Qed.

(** A reserved character other than [+] and [%] never shows up in an
    escaped string. *)
Lemma occurs_QueryEscape (sep : ascii) (s : string) :
  shouldEscape sep = true → sep ≠ "+"%char → sep ≠ "%"%char →
  occurs sep (QueryEscape s) = false.
Proof.
  intros Hsep Hplus Hpct.
  assert (Ascii.eqb "+" sep = false) as Hp
    by (apply Ascii.eqb_neq; congruence).
  assert (Ascii.eqb "%" sep = false) as Hq
    by (apply Ascii.eqb_neq; congruence).
  induction s as [|c s IH]; [reflexivity|]. cbn [QueryEscape].
  destruct (Ascii.eqb c " ").
  - cbn [occurs]. by rewrite IH, Hp.
  - destruct (shouldEscape c) eqn:Hc; cbn [occurs]; rewrite IH.
    + rewrite !(eqb_escape_differ (hexDigit _))
        by (done || apply hexDigit_unreserved).
      by rewrite Hq.
    + by rewrite eqb_escape_differ.
Qed.

Lemma occurs_plain (sep : ascii) (s : string) :
  shouldEscape sep = true → plain s = true → occurs sep s = false.
Proof.
  intros Hsep Hs. rewrite <- (QueryEscape_plain s Hs).
  induction s as [|c s IH]; [reflexivity|].
  simpl in Hs. apply andb_prop in Hs as [[Hsp Hc]%andb_prop Hs].
  apply negb_true_iff in Hsp, Hc. cbn [QueryEscape]. rewrite Hsp, Hc.
  cbn [occurs]. rewrite IH by done. by rewrite eqb_escape_differ.
Qed.

Lemma splitOn_none (sep : ascii) (s : string) :
  occurs sep s = false → splitOn sep s = [s].
Proof.
  induction s as [|c s IH]; [reflexivity|]. cbn [occurs splitOn].
  intros [Hc Hs]%orb_false_elim. rewrite Hc, IH by done. reflexivity.
Qed.

Lemma splitOn_first (sep : ascii) (a b : string) :
  occurs sep a = false →
  splitOn sep (a +:+ String sep b) = a :: splitOn sep b.
Proof.
  induction a as [|c a IH].
  - intros _. rewrite append_nil. cbn [splitOn]. by rewrite Ascii.eqb_refl.
  - cbn [occurs]. intros [Hc Ha]%orb_false_elim. rewrite append_cons.
    cbn [splitOn]. rewrite Hc, IH by done. reflexivity.
Qed.

Lemma cutOn_first (sep : ascii) (a b : string) :
  occurs sep a = false → cutOn sep (a +:+ String sep b) = (a, b).
Proof.
  induction a as [|c a IH].
  - intros _. rewrite append_nil. cbn [cutOn]. by rewrite Ascii.eqb_refl.
  - cbn [occurs]. intros [Hc Ha]%orb_false_elim. rewrite append_cons.
    cbn [cutOn]. rewrite Hc, IH by done. reflexivity.
Qed.

Lemma sorted_searchParams (a b c : string) :
  merge_sort key_le
    (map_to_list (<["offset" := [c]]> (<["limit" := [b]]>
                    (<["query" := [a]]> (∅ : Values)))))
  = [("limit", [b]); ("offset", [c]); ("query", [a])]%string.
Proof. vm_compute. reflexivity. Qed.

Lemma size_searchParams (a b c : string) :
  size (<["offset" := [c]]> (<["limit" := [b]]>
          (<["query" := [a]]> (∅ : Values)))) = 3%nat.
Proof. vm_compute. reflexivity. Qed.

Lemma writePair_empty (k v : string) :
  writePair k "" v = k +:+ "=" +:+ QueryEscape v.
Proof. reflexivity. Qed.

Lemma writePair_nonempty (k : string) (c : ascii) (a b v : string) :
  writePair k (String c a +:+ b) v
  = ((String c a +:+ b) +:+ "&") +:+ k +:+ "=" +:+ QueryEscape v.
Proof. reflexivity. Qed.

Lemma Encode_searchParams (searchTerm : string) (limit offset : Z) :
  Encode (searchParams searchTerm limit offset)
  = "limit=" +:+ intParamToString limit
    +:+ "&offset=" +:+ intParamToString offset
    +:+ "&query=" +:+ QueryEscape searchTerm.
Proof.
  unfold Encode, searchParams.
  rewrite size_searchParams, sorted_searchParams.
  rewrite decide_False by done.
  cbn [foldl writeKey fst snd].
  rewrite writePair_empty.
  change (QueryEscape "limit") with "limit"%string.
  change (QueryEscape "offset") with "offset"%string.
  change (QueryEscape "query") with "query"%string.
  rewrite writePair_nonempty, !append_assoc.
  rewrite writePair_nonempty, !append_assoc.
  rewrite !(QueryEscape_plain (intParamToString _))
    by apply plain_intParamToString.
  reflexivity.
Qed.

Lemma parseQuery_searchParams (searchTerm : string) (limit offset : Z) :
  parseQuery (Encode (searchParams searchTerm limit offset))
  = [("limit", intParamToString limit);
     ("offset", intParamToString offset);
     ("query", QueryEscape searchTerm)]%string.
Proof.
  rewrite Encode_searchParams. unfold parseQuery.
  pose proof (plain_intParamToString limit) as Hl.
  pose proof (plain_intParamToString offset) as Ho.
  change ("&offset=" +:+ ?x)%string with (String "&" ("offset=" +:+ x)).
  change ("&query=" +:+ ?x)%string with (String "&" ("query=" +:+ x)).
  rewrite <- (append_assoc "limit=").
  rewrite splitOn_first.
  2:{ rewrite occurs_append. rewrite (occurs_plain "&" _ eq_refl Hl). reflexivity. }
  rewrite <- (append_assoc "offset=").
  rewrite splitOn_first.
  2:{ rewrite occurs_append. rewrite (occurs_plain "&" _ eq_refl Ho). reflexivity. }
  rewrite splitOn_none.
  2:{ rewrite occurs_append, occurs_QueryEscape by done. reflexivity. }
  cbn [fmap list_fmap].
  change ("limit=" +:+ ?x)%string with ("limit" +:+ String "=" x).
  change ("offset=" +:+ ?x)%string with ("offset" +:+ String "=" x).
  change ("query=" +:+ ?x)%string with ("query" +:+ String "=" x).
  rewrite !cutOn_first by reflexivity. reflexivity.
Qed.

(** ** Flattening *)

Section FlattenFacts.

Context {E : Type} `{Countable E}.

Implicit Types (l : list (scored (E := E))) (v : scored (E := E)).
Implicit Types (m : gmap E Z) (e : E).

Lemma flattenLoop_snoc (rsp : SearchResponse (E := E)) l v :
  flattenLoop rsp (l ++ [v])
  = (rsp' ← flattenLoop rsp l; flattenStep rsp' (length l) v).
Proof.
  unfold flattenLoop. rewrite imap_app. cbn [imap].
  rewrite foldl_snoc. cbn [fst snd]. by rewrite Nat.add_0_r.
Qed.

(** The loop never indexes out of range: it returns the entities in the
    order of the entries, and the scores inserted one by one. *)
Lemma flatten_eq (result : listResult (E := E)) :
  flatten result
  = Returned {| RspHeader := ListHeader result;
                Entities := Entity <$> Entries result;
                Scores := scoresOf (Entries result) |}.
Proof.
  unfold flatten, scoresOf. generalize (ListHeader result) as h.
  induction (Entries result) as [|v l IH] using rev_ind; intros h.
  - reflexivity.
  - rewrite flattenLoop_snoc, IH. cbn [mbind outcome_bind obind].
    unfold flattenStep. cbn [Entities Scores RspHeader].
    rewrite lookup_app_r by (by rewrite length_fmap).
    rewrite length_fmap, Nat.sub_diag. cbn [lookup list_lookup].
    by rewrite fmap_app, foldl_snoc.
Qed.

Lemma scoresOf_snoc l v : scoresOf (l ++ [v]) = putScore (scoresOf l) v.
Proof. unfold scoresOf. by rewrite foldl_snoc. Qed.

Lemma dom_scoresOf l :
  dom (scoresOf l) = (list_to_set (Entity <$> l) : gset E).
Proof.
  induction l as [|v l IH] using rev_ind; [apply dom_empty_L|].
  rewrite scoresOf_snoc, fmap_app. cbn [fmap list_fmap].
  rewrite list_to_set_snoc_L. unfold putScore.
  rewrite dom_insert_L, IH. apply union_comm_L.
Qed.

Lemma size_scoresOf l :
  size (scoresOf l) = length (remove_dups (Entity <$> l)).
Proof.
  rewrite <- size_dom, dom_scoresOf.
  rewrite <- (size_list_to_set (C := gset E) (remove_dups _))
    by apply NoDup_remove_dups.
  f_equal. apply set_eq. intros e.
  by rewrite !elem_of_list_to_set, elem_of_remove_dups.
Qed.

(** The last entry of an entity decides its score. *)
Lemma scoresOf_last l1 v l2 :
  Entity v ∉ Entity <$> l2 →
  scoresOf (l1 ++ v :: l2) !! Entity v = Some (Score v).
Proof.
  induction l2 as [|w l2 IH] using rev_ind; intros Hnot.
  - rewrite scoresOf_snoc. apply lookup_insert_eq.
  - rewrite fmap_app in Hnot. apply not_elem_of_app in Hnot as [Hl2 Hw].
    rewrite app_comm_cons, app_assoc, scoresOf_snoc. unfold putScore.
    rewrite lookup_insert_ne by set_solver. by apply IH.
Qed.

End FlattenFacts.

(** * The claims *)

(** ** Request parameters *)

Example encode_nirvana :
  Encode (searchParams "Nirvana" 5 (-1)) = "limit=5&offset=&query=Nirvana".
Proof. vm_compute. reflexivity. Qed.

Example escape_term :
  QueryEscape "artist:AC/DC & co" = "artist%3AAC%2FDC+%26+co".
Proof. vm_compute. reflexivity. Qed.

Example Itoa_values :
  Itoa 0 = "0" ∧ Itoa (-7) = "-7" ∧ Itoa 100 = "100".
Proof. repeat split; reflexivity. Qed.

(** The decimal string reads back as the number it was made from. *)
Lemma Itoa_reads_back (i : Z) :
  Z.of_int <$> NilZero.int_of_string (Itoa i) = Some i.
Proof.
  unfold Itoa. rewrite NilZero.isi.
  - cbn [fmap option_fmap option_map]. by rewrite DecimalZ.of_to.
  - destruct i as [|p|p]; [discriminate| |discriminate].
    intros [= Hp]. by apply DecimalPos.Unsigned.to_uint_nonnil in Hp.
  - destruct i as [|p|p]; [discriminate|discriminate|].
    intros [= Hp]. by apply DecimalPos.Unsigned.to_uint_nonnil in Hp.
Qed.

(** C1, as stated, fails: with limit -1 the issued query string still
    carries the key [limit] (with an empty value), and likewise for offset.
    Here the artist search of the fixture client for "Nirvana" with limit -1
    and offset -1. *)
Lemma C1_sentinel_parameter_is_sent :
  requestTarget Fixture.render "https://musicbrainz.org/ws/2" "/artist"
    (searchParams "Nirvana" (-1) (-1))
  = "https://musicbrainz.org/ws/2/artist?limit=&offset=&query=Nirvana"
  ∧ "limit" ∈ queryKeys (Encode (searchParams "Nirvana" (-1) (-1)))
  ∧ "offset" ∈ queryKeys (Encode (searchParams "Nirvana" (-1) (-1))).
Proof.
  split; [vm_compute; reflexivity|].
  replace (queryKeys (Encode (searchParams "Nirvana" (-1) (-1))))
    with ["limit"; "offset"; "query"]%string by (vm_compute; reflexivity).
  split; apply list_elem_of_In; simpl; tauto.
Qed.

(** C1, amended: the query string of every search request carries the
    three keys limit, offset and query, in that order; the value of limit
    (respectively offset) is empty when the argument is -1 and is the
    decimal string of the argument for every other integer. *)
Theorem C1_query_parameters
    {URL : Type} (URL_String : URL → string) (u : URL)
    (endpoint searchTerm : string) (limit offset : Z) :
  requestTarget URL_String u endpoint (searchParams searchTerm limit offset)
  = URL_String u +:+ endpoint +:+ "?"
    +:+ Encode (searchParams searchTerm limit offset)
  ∧ Encode (searchParams searchTerm limit offset)
    = "limit=" +:+ (if decide (limit = -1) then "" else Itoa limit)
      +:+ "&offset=" +:+ (if decide (offset = -1) then "" else Itoa offset)
      +:+ "&query=" +:+ QueryEscape searchTerm
  ∧ parseQuery (Encode (searchParams searchTerm limit offset))
    = [("limit", if decide (limit = -1) then "" else Itoa limit);
       ("offset", if decide (offset = -1) then "" else Itoa offset);
       ("query", QueryEscape searchTerm)]%string.
Proof.
  split; [reflexivity|].
  split; [apply Encode_searchParams | apply parseQuery_searchParams].
Qed.

(** ** Client configuration *)

(** C3, as stated, fails: after a root address that does not parse, the
    base URL of the client is nil, not the one configured before. *)
Lemma C3_failed_parse_clears_root :
  WS2RootURL Fixture.client = Some "https://musicbrainz.org/ws/2"%string
  ∧ SetRootURL Fixture.parse Fixture.client Fixture.bad_address
    = ({| WS2RootURL := None;
          userAgentHeader := userAgentHeader Fixture.client |},
       Some (InvalidRootAddress "missing protocol scheme"))
  ∧ WS2RootURL
      (SetRootURL Fixture.parse Fixture.client Fixture.bad_address).1
    ≠ WS2RootURL Fixture.client.
Proof. split; [reflexivity|]. split; [reflexivity|]. discriminate. Qed.

(** C3, amended: when the root address fails to parse, [SetRootURL]
    returns the parse error and sets the base URL to nil; the
    identification string stays as it was. *)
Theorem C3_SetRootURL_failure
    {URL : Type} (url_Parse : string → URL + string)
    (c : WS2Client (URL := URL)) (rooturl msg : string) :
  url_Parse rooturl = inr msg →
  SetRootURL url_Parse c rooturl
  = ({| WS2RootURL := None; userAgentHeader := userAgentHeader c |},
     Some (InvalidRootAddress msg)).
Proof. intros Hparse. unfold SetRootURL. by rewrite Hparse. Qed.

Lemma C3_SetRootURL_failure_witness :
  SetRootURL Fixture.parse Fixture.client Fixture.bad_address
  = ({| WS2RootURL := None;
        userAgentHeader := userAgentHeader Fixture.client |},
     Some (InvalidRootAddress "missing protocol scheme")).
Proof.
  apply (C3_SetRootURL_failure Fixture.parse Fixture.client
           Fixture.bad_address).
  reflexivity.
Defined.

(** On success the new URL replaces the old one. *)
Lemma SetRootURL_success
    {URL : Type} (url_Parse : string → URL + string)
    (c : WS2Client (URL := URL)) (rooturl : string) (u : URL) :
  url_Parse rooturl = inl u →
  SetRootURL url_Parse c rooturl
  = ({| WS2RootURL := Some u; userAgentHeader := userAgentHeader c |}, None).
Proof. intros Hparse. unfold SetRootURL. by rewrite Hparse. Qed.

(** C7, as stated, fails: the identification string ends in a space after
    the closing parenthesis. *)
Lemma C7_identification_has_trailing_space :
  userAgentHeader
    (NewWS2Client Fixture.parse "https://musicbrainz.org/ws/2"
       "testapp" "1.0" "test@example.com")
  ≠ "testapp/1.0 ( test@example.com )"%string
  ∧ userAgentHeader
      (SetClientInfo Fixture.client "testapp" "1.0" "test@example.com")
    ≠ "testapp/1.0 ( test@example.com )"%string.
Proof. split; discriminate. Qed.

(** C7, amended: the constructor and [SetClientInfo] build the
    identification string as application, slash, version, then the contact
    between " ( " and " ) ", the last with a space after the parenthesis;
    [SetClientInfo] has no failure and leaves the base URL alone. *)
Theorem C7_identification_string
    {URL : Type} (url_Parse : string → URL + string)
    (c : WS2Client (URL := URL))
    (rooturl appname version contact : string) :
  userAgentHeader (NewWS2Client url_Parse rooturl appname version contact)
  = appname +:+ "/" +:+ version +:+ " ( " +:+ contact +:+ " ) "
  ∧ SetClientInfo c appname version contact
    = {| WS2RootURL := WS2RootURL c;
         userAgentHeader :=
           appname +:+ "/" +:+ version +:+ " ( " +:+ contact +:+ " ) " |}.
Proof. split; reflexivity. Qed.

Example control_character_rejected :
  SetRootURL Fixture.parse Fixture.client Fixture.ctl_address
  = ({| WS2RootURL := None;
        userAgentHeader := userAgentHeader Fixture.client |},
     Some (InvalidRootAddress "net/url: invalid control character in URL")).
Proof. reflexivity. Qed.

Example identification_testapp :
  userAgentHeader Fixture.client = "testapp/1.0 ( test@example.com ) ".
Proof. reflexivity. Qed.

(** ** Methods without a body *)

(** C8: [SearchFreedb], [SearchRecording] and [SearchWork] return a nil
    response and a nil error, whatever the arguments. *)
Theorem C8_unimplemented_return_nil
    {URL E : Type} `{Countable E}
    (c : WS2Client (URL := URL)) (searchTerm : string) (limit offset : Z) :
  SearchFreedb (E := E) c searchTerm limit offset = Returned (None, None)
  ∧ SearchRecording (E := E) c searchTerm limit offset
    = Returned (None, None)
  ∧ SearchWork (E := E) c searchTerm limit offset = Returned (None, None).
Proof. repeat split. Qed.

(** ** Flattening a wrapper *)

Example flatten_full :
  flatten {| ListHeader := {| Count := 3; Offset := 0 |};
             Entries := Fixture.entries_full |}
  = Returned {| RspHeader := {| Count := 3; Offset := 0 |};
                Entities := ["Nirvana"; "Nirvana UK"; "Nirvana"]%string;
                Scores := {[ "Nirvana"%string := 60; "Nirvana UK"%string := 80 ]} |}.
Proof. vm_compute. reflexivity. Qed.

(** C4: flattening a wrapper of K scored entries returns a response whose
    entity sequence is the K entities in the order of the entries, under the
    pagination header of the wrapper, and whose score map has as many
    entries as the sequence has distinct values. *)
Theorem C4_flatten_sequence_and_size
    {E : Type} `{Countable E} (result : listResult (E := E)) :
  ∃ rsp : SearchResponse (E := E),
    flatten result = Returned rsp
    ∧ RspHeader rsp = ListHeader result
    ∧ Entities rsp = Entity <$> Entries result
    ∧ length (Entities rsp) = length (Entries result)
    ∧ size (Scores rsp) = length (remove_dups (Entities rsp))
    ∧ size (Scores rsp) = size (list_to_set (Entities rsp) : gset E).
Proof.
  exists (responseOf result). rewrite flatten_eq. unfold responseOf.
  cbn [RspHeader Entities Scores].
  repeat split; [by rewrite length_fmap | apply size_scoresOf |].
  by rewrite <- dom_scoresOf, size_dom.
Qed.

(** C5: when an entity occurs twice among the entries, the score map holds
    for it the score of its last entry, and the entity sequence still has
    every occurrence. *)
Theorem C5_duplicate_keeps_last_score
    {E : Type} `{Countable E} (result : listResult (E := E))
    (l1 l2 l3 : list (scored (E := E))) (v1 v2 : scored (E := E)) :
  Entries result = l1 ++ v1 :: l2 ++ v2 :: l3 →
  Entity v1 = Entity v2 →
  Entity v2 ∉ Entity <$> l3 →
  ∃ rsp : SearchResponse (E := E),
    flatten result = Returned rsp
    ∧ Scores rsp !! Entity v2 = Some (Score v2)
    ∧ Entities rsp
      = (Entity <$> l1) ++ Entity v1 :: (Entity <$> l2)
        ++ Entity v2 :: (Entity <$> l3).
Proof.
  intros Hl Hsame Hlast. exists (responseOf result).
  rewrite flatten_eq. unfold responseOf. cbn [Entities Scores].
  rewrite Hl. split; [reflexivity|]. split.
  - rewrite app_comm_cons, app_assoc. by apply scoresOf_last.
  - by rewrite fmap_app, fmap_cons, fmap_app, fmap_cons.
Qed.

Lemma C5_duplicate_keeps_last_score_witness :
  ∃ rsp : SearchResponse (E := string),
    flatten {| ListHeader := {| Count := 3; Offset := 0 |};
               Entries := Fixture.entries_full |} = Returned rsp
    ∧ Scores rsp !! "Nirvana"%string = Some 60
    ∧ Entities rsp = ["Nirvana"; "Nirvana UK"; "Nirvana"]%string.
Proof.
  apply (C5_duplicate_keeps_last_score
           {| ListHeader := {| Count := 3; Offset := 0 |};
              Entries := Fixture.entries_full |}
           [] [ {| Entity := "Nirvana UK"%string; Score := 80 |} ] []
           {| Entity := "Nirvana"%string; Score := 100 |}
           {| Entity := "Nirvana"%string; Score := 60 |}).
  - reflexivity.
  - reflexivity.
  - cbn. apply not_elem_of_nil.
Defined.

(** How often an entity occurs among the entries. *)
Lemma once_after {E : Type} `{Countable E}
    (l1 l2 : list (scored (E := E))) (v : scored (E := E)) :
  length (filter (λ x, Entity x = Entity v) (l1 ++ v :: l2)) = 1%nat →
  Entity v ∉ Entity <$> l2.
Proof.
  rewrite filter_app, filter_cons_True by done.
  rewrite length_app. cbn [length]. intros Hlen.
  intros (w & Hw & Hin)%list_elem_of_fmap.
  assert (w ∈ filter (λ x, Entity x = Entity v) l2) as Hf
    by (apply list_elem_of_filter; split; [by symmetry | done]).
  destruct (filter _ l2); [by apply elem_of_nil in Hf | cbn in Hlen; lia].
Qed.

(** C6: an entity that occurs exactly once among the entries is mapped by
    the score map to the score of its entry. *)
Theorem C6_single_occurrence_score
    {E : Type} `{Countable E} (result : listResult (E := E))
    (v : scored (E := E)) :
  v ∈ Entries result →
  length (filter (λ x, Entity x = Entity v) (Entries result)) = 1%nat →
  ∃ rsp : SearchResponse (E := E),
    flatten result = Returned rsp
    ∧ Scores rsp !! Entity v = Some (Score v).
Proof.
  intros Hin Honce. exists (responseOf result).
  rewrite flatten_eq. split; [reflexivity|]. unfold responseOf.
  cbn [Scores].
  apply list_elem_of_split in Hin as (l1 & l2 & Hl). rewrite Hl in Honce |- *.
  apply scoresOf_last. by apply once_after in Honce.
Qed.

Lemma C6_single_occurrence_score_witness :
  ∃ rsp : SearchResponse (E := string),
    flatten {| ListHeader := {| Count := 3; Offset := 0 |};
               Entries := Fixture.entries_full |} = Returned rsp
    ∧ Scores rsp !! "Nirvana UK"%string = Some 80.
Proof.
  apply (C6_single_occurrence_score
           {| ListHeader := {| Count := 3; Offset := 0 |};
              Entries := Fixture.entries_full |}
           {| Entity := "Nirvana UK"%string; Score := 80 |}).
  - cbn. apply list_elem_of_In. simpl. tauto.
  - vm_compute. reflexivity.
Defined.

(** ** Search methods *)

Section SearchFacts.

Context {URL : Type}.
Context (url_Parse : string → URL + string).
Context (URL_String : URL → string).
Context (http_Do : Request (URL := URL) → Response + string).
Context {E : Type} `{Countable E}.
Context (xml_Decode : string → listResult (E := E)
                      → listResult (E := E) * option string).

Implicit Types (c : WS2Client (URL := URL)) (u : URL).
Implicit Types (data : listResult (E := E)).

Abbreviation search := (searchEntity url_Parse URL_String http_Do xml_Decode).

(** A search method, case by case. *)
Lemma searchEntity_eq endpoint c searchTerm limit offset :
  search endpoint c searchTerm limit offset
  = match WS2RootURL c with
    | None => Panic "invalid memory address or nil pointer dereference"
    | Some u =>
        match http_NewRequest url_Parse "GET"
                (requestTarget URL_String u endpoint
                   (searchParams searchTerm limit offset)) with
        | inr err => Fatal err
        | inl req =>
            match http_Do (Header_Set req "User-Agent"
                             (userAgentHeader c)) with
            | inr msg => Fatal (TransportFailure msg)
            | inl resp =>
                let r := xml_Decode (Body resp) zeroResult in
                Returned (Some (responseOf r.1), DecodeFailure <$> r.2)
            end
        end
    end.
Proof.
  unfold searchEntity, searchRequest, getReqeust.
  destruct (WS2RootURL c) as [u|]; [|reflexivity].
  destruct (http_NewRequest _ _ _) as [req|err]; [|reflexivity].
  destruct (http_Do _) as [resp|msg]; [|reflexivity].
  destruct (xml_Decode _ _) as [data [msg|]];
    cbn [mbind outcome_bind obind]; rewrite flatten_eq; reflexivity.
Qed.

Lemma searchEntity_returned endpoint c searchTerm limit offset r :
  search endpoint c searchTerm limit offset = Returned r →
  ∃ data, r.1 = Some (responseOf data)
          ∧ (r.2 = None ∨ ∃ msg, r.2 = Some (DecodeFailure msg)).
Proof.
  rewrite searchEntity_eq.
  destruct (WS2RootURL c) as [u|]; [|discriminate].
  destruct (http_NewRequest _ _ _) as [req|err]; [|discriminate].
  destruct (http_Do _) as [resp|msg]; [|discriminate].
  intros [= <-]. eexists. split; [reflexivity|]. cbn [snd].
  destruct (xml_Decode _ _).2 as [msg|]; [right; by exists msg | by left].
Qed.

(** C2, amended: when the decoder fails on the body, a search method
    returns the decode error together with a non-nil response, flattened
    from the wrapper as the decoder left it. *)
Theorem C2_decode_failure_keeps_response
    endpoint c searchTerm limit offset u req resp data msg :
  WS2RootURL c = Some u →
  http_NewRequest url_Parse "GET"
    (requestTarget URL_String u endpoint
       (searchParams searchTerm limit offset)) = inl req →
  http_Do (Header_Set req "User-Agent" (userAgentHeader c)) = inl resp →
  xml_Decode (Body resp) zeroResult = (data, Some msg) →
  search endpoint c searchTerm limit offset
  = Returned (Some (responseOf data), Some (DecodeFailure msg)).
Proof.
  intros Hroot Hreq Hdo Hdec.
  by rewrite searchEntity_eq, Hroot, Hreq, Hdo, Hdec.
Qed.

(** C9: when the network call fails, a search method ends the process
    with the transport error; it does not return, so it returns no
    transport error to its caller. *)
Theorem C9_transport_failure_is_fatal
    endpoint c searchTerm limit offset u req msg :
  WS2RootURL c = Some u →
  http_NewRequest url_Parse "GET"
    (requestTarget URL_String u endpoint
       (searchParams searchTerm limit offset)) = inl req →
  http_Do (Header_Set req "User-Agent" (userAgentHeader c)) = inr msg →
  search endpoint c searchTerm limit offset = Fatal (TransportFailure msg)
  ∧ ∀ r, search endpoint c searchTerm limit offset ≠ Returned r.
Proof.
  intros Hroot Hreq Hdo.
  rewrite searchEntity_eq, Hroot, Hreq, Hdo. split; [reflexivity | discriminate].
Qed.

(** Whatever the network does, the error a search method returns is
    never a transport error. *)
Lemma returned_error_not_transport
    endpoint c searchTerm limit offset rsp msg :
  search endpoint c searchTerm limit offset
  ≠ Returned (rsp, Some (TransportFailure msg)).
Proof.
  intros Hret. apply searchEntity_returned in Hret as (data & _ & Herr).
  cbn [snd] in Herr. by destruct Herr as [|[msg' ?]].
Qed.

(** C10: in every response a search method returns, with or without an
    error, the keys of the score map are the values of the entity
    sequence. *)
Theorem C10_score_keys_are_entities
    endpoint c searchTerm limit offset
    (rsp : SearchResponse (E := E)) (err : option error) :
  search endpoint c searchTerm limit offset = Returned (Some rsp, err) →
  dom (Scores rsp) = (list_to_set (Entities rsp) : gset E)
  ∧ ∀ e : E, e ∈ Entities rsp ↔ is_Some (Scores rsp !! e).
Proof.
  intros Hret. apply searchEntity_returned in Hret as (data & Hrsp & _).
  cbn [fst] in Hrsp. injection Hrsp as ->. unfold responseOf.
  cbn [Scores Entities]. split; [apply dom_scoresOf|].
  intros e. by rewrite <- elem_of_dom, dom_scoresOf, elem_of_list_to_set.
Qed.

End SearchFacts.

(** ** Errors of a search *)

Example search_full :
  SearchArtist Fixture.parse Fixture.render Fixture.net_full Fixture.decode
    Fixture.client "Nirvana" 5 (-1)
  = Returned (Some Fixture.response_full, None).
Proof. vm_compute. reflexivity. Qed.

(** C2, as stated, fails: on a truncated body the artist search returns
    the decode error together with a response, and the response holds the
    entry the decoder had stored before it failed. *)
Lemma C2_decode_failure_returns_response :
  SearchArtist Fixture.parse Fixture.render Fixture.net_truncated
    Fixture.decode Fixture.client "Nirvana" 5 (-1)
  = Returned
      (Some {| RspHeader := {| Count := 3; Offset := 0 |};
               Entities := ["Nirvana"%string];
               Scores := {[ "Nirvana"%string := 100 ]} |},
       Some (DecodeFailure "XML syntax error on line 1: unexpected EOF")).
Proof. vm_compute. reflexivity. Qed.


Lemma C2_decode_failure_keeps_response_witness :
  SearchArtist Fixture.parse Fixture.render Fixture.net_truncated
    Fixture.decode Fixture.client "Nirvana" 5 (-1)
  = Returned
      (Some (responseOf {| ListHeader := {| Count := 3; Offset := 0 |};
                           Entries := take 1 Fixture.entries_full |}),
       Some (DecodeFailure "XML syntax error on line 1: unexpected EOF")).
Proof.
  eapply (C2_decode_failure_keeps_response Fixture.parse Fixture.render
           Fixture.net_truncated Fixture.decode "/artist" Fixture.client
           "Nirvana" 5 (-1)).
  - reflexivity.
  - vm_compute. reflexivity.
  - reflexivity.
  - vm_compute. reflexivity.
Defined.

Lemma C9_transport_failure_is_fatal_witness :
  SearchArtist Fixture.parse Fixture.render Fixture.net_down Fixture.decode
    Fixture.client "Nirvana" 5 (-1)
  = Fatal (TransportFailure "dial tcp: connection refused")
  ∧ ∀ r, SearchArtist Fixture.parse Fixture.render Fixture.net_down
           Fixture.decode Fixture.client "Nirvana" 5 (-1) ≠ Returned r.
Proof.
  eapply (C9_transport_failure_is_fatal Fixture.parse Fixture.render
           Fixture.net_down Fixture.decode "/artist" Fixture.client
           "Nirvana" 5 (-1)).
  - reflexivity.
  - vm_compute. reflexivity.
  - reflexivity.
Defined.

Lemma C10_score_keys_are_entities_witness :
  dom (Scores Fixture.response_full)
  = (list_to_set (Entities Fixture.response_full) : gset string)
  ∧ ∀ e : string,
      e ∈ Entities Fixture.response_full
      ↔ is_Some (Scores Fixture.response_full !! e).
Proof.
  apply (C10_score_keys_are_entities Fixture.parse Fixture.render
           Fixture.net_full Fixture.decode "/artist" Fixture.client
           "Nirvana" 5 (-1) Fixture.response_full None).
  vm_compute. reflexivity.
Defined.

(** * Further properties *)

(** ** The sentinel of [intParamToString] *)

Lemma Itoa_nonempty (i : Z) : Itoa i ≠ ""%string.
Proof.
  unfold Itoa, NilZero.string_of_int, NilZero.string_of_uint.
  destruct (Z.to_int i) as [d|d]; destruct d; discriminate.
Qed.

Lemma Itoa_inj (i j : Z) : Itoa i = Itoa j → i = j.
Proof.
  intros Heq. pose proof (Itoa_reads_back i) as Hi.
  rewrite Heq, Itoa_reads_back in Hi. by injection Hi.
Qed.

Lemma Itoa_minus_one : Itoa (-1) = "-1"%string.
Proof. reflexivity. Qed.

(** X1: -1 is the only argument [intParamToString] turns into the empty
    string. *)
Theorem intParamToString_empty_iff (i : Z) :
  intParamToString i = ""%string ↔ i = -1.
Proof.
  unfold intParamToString. case_decide as Hi.
  - by split.
  - split; [intros Hempty; by apply Itoa_nonempty in Hempty | done].
Qed.

(** X2: different arguments give different parameter values. *)
Theorem intParamToString_inj (i j : Z) :
  intParamToString i = intParamToString j → i = j.
Proof.
  unfold intParamToString. repeat case_decide; subst; intros Heq.
  - reflexivity.
  - symmetry in Heq. by apply Itoa_nonempty in Heq.
  - by apply Itoa_nonempty in Heq.
  - by apply Itoa_inj.
Qed.

Lemma intParamToString_inj_witness : (25 : Z) = 25.
Proof. apply (intParamToString_inj 25 25). reflexivity. Defined.

(** ** Configuration *)

(** X3: the constructor does what the two setters do, in either order, to any
    client: also for a root address that does not parse. *)
Theorem NewWS2Client_as_setters
    {URL : Type} (url_Parse : string → URL + string)
    (c : WS2Client (URL := URL))
    (rooturl appname version contact : string) :
  SetClientInfo (SetRootURL url_Parse c rooturl).1 appname version contact
  = NewWS2Client url_Parse rooturl appname version contact
  ∧ (SetRootURL url_Parse (SetClientInfo c appname version contact)
       rooturl).1
    = NewWS2Client url_Parse rooturl appname version contact
  ∧ (SetRootURL url_Parse (SetClientInfo c appname version contact)
       rooturl).2
    = (SetRootURL url_Parse c rooturl).2.
Proof.
  unfold SetClientInfo, SetRootURL, NewWS2Client.
  destruct (url_Parse rooturl); repeat split.
Qed.

(** ** The score map *)

Section ScoreFacts.

Context {E : Type} `{Countable E}.

Implicit Types (l : list (scored (E := E))) (v : scored (E := E)).

Lemma scoresOf_lookup l (e : E) :
  scoresOf l !! e = Score <$> last (filter (λ v, Entity v = e) l).
Proof.
  induction l as [|v l IH] using rev_ind; [reflexivity|].
  rewrite scoresOf_snoc, filter_app. unfold putScore.
  destruct (decide (Entity v = e)) as [Heq|Hne].
  - rewrite filter_cons_True by done. cbn [filter list_filter].
    rewrite last_snoc, Heq. apply lookup_insert_eq.
  - rewrite filter_cons_False by done. cbn [filter list_filter].
    rewrite app_nil_r. by rewrite lookup_insert_ne.
Qed.

Lemma length_remove_dups_le (l : list E) :
  (length (remove_dups l) ≤ length l)%nat.
Proof.
  induction l as [|x l IH]; [done|]. cbn [remove_dups].
  case_match; cbn [length]; lia.
Qed.

Lemma length_remove_dups_eq (l : list E) :
  length (remove_dups l) = length l ↔ NoDup l.
Proof.
  induction l as [|x l IH]; [split; [constructor | done]|].
  cbn [remove_dups]. pose proof (length_remove_dups_le l) as Hle.
  rewrite NoDup_cons. case_match; cbn [length].
  - split; [lia | by intros [? _]].
  - rewrite <- IH. split; [intros [= ?]; by split | intros [_ ->]; done].
Qed.

(** X4: looking an entity up in the score map of a flattened wrapper gives the
    score of the last entry for that entity, and nothing when no entry has
    it. *)
Theorem flatten_score_lookup (result : listResult (E := E)) (e : E) :
  ∃ rsp : SearchResponse (E := E),
    flatten result = Returned rsp
    ∧ Scores rsp !! e
      = Score <$> last (filter (λ v, Entity v = e) (Entries result)).
Proof.
  exists (responseOf result). rewrite flatten_eq.
  split; [reflexivity | apply scoresOf_lookup].
Qed.

(** X5: the score map never has more entries than the entity sequence, and has
    as many exactly when no entity value occurs twice. *)
Theorem flatten_size_bound (result : listResult (E := E)) :
  ∃ rsp : SearchResponse (E := E),
    flatten result = Returned rsp
    ∧ (size (Scores rsp) ≤ length (Entities rsp))%nat
    ∧ (size (Scores rsp) = length (Entities rsp) ↔ NoDup (Entities rsp)).
Proof.
  exists (responseOf result). rewrite flatten_eq. unfold responseOf.
  cbn [Entities Scores]. rewrite size_scoresOf.
  split; [reflexivity|].
  split; [apply length_remove_dups_le | apply length_remove_dups_eq].
Qed.

End ScoreFacts.

(** ** A whole search *)

Section CallFacts.

Context {URL : Type}.
Context (url_Parse : string → URL + string).
Context (URL_String : URL → string).
Context (http_Do : Request (URL := URL) → Response + string).
Context {E : Type} `{Countable E}.
Context (xml_Decode : string → listResult (E := E)
                      → listResult (E := E) * option string).

Implicit Types (c : WS2Client (URL := URL)) (u : URL).
Implicit Types (data : listResult (E := E)).

Abbreviation call := (searchEntity url_Parse URL_String http_Do xml_Decode).

(** X6: a root address that does not parse leaves a client on which every
    implemented search panics: after the constructor, which drops the
    error, and after [SetRootURL], which reports it. *)
Theorem unparsable_root_panics
    endpoint c rooturl appname version contact searchTerm limit offset msg :
  url_Parse rooturl = inr msg →
  call endpoint (NewWS2Client url_Parse rooturl appname version contact)
    searchTerm limit offset
  = Panic "invalid memory address or nil pointer dereference"
  ∧ call endpoint (SetRootURL url_Parse c rooturl).1 searchTerm limit offset
    = Panic "invalid memory address or nil pointer dereference".
Proof.
  intros Hparse. rewrite !searchEntity_eq.
  unfold NewWS2Client, SetRootURL. by rewrite Hparse.
Qed.

(** X7: when the decoder reports no error, the search returns the flattened
    wrapper and a nil error. *)
Theorem decode_success_returns_response
    endpoint c searchTerm limit offset u req resp data :
  WS2RootURL c = Some u →
  http_NewRequest url_Parse "GET"
    (requestTarget URL_String u endpoint
       (searchParams searchTerm limit offset)) = inl req →
  http_Do (Header_Set req "User-Agent" (userAgentHeader c)) = inl resp →
  xml_Decode (Body resp) zeroResult = (data, None) →
  call endpoint c searchTerm limit offset
  = Returned (Some (responseOf data), None).
Proof.
  intros Hroot Hreq Hdo Hdec.
  by rewrite searchEntity_eq, Hroot, Hreq, Hdo, Hdec.
Qed.

(** X8: the status code of the answer plays no part: with any other status
    and the same body the search ends the same way. *)
Theorem status_code_is_ignored
    (status : Z) endpoint c searchTerm limit offset :
  searchEntity url_Parse URL_String (withStatus status http_Do) xml_Decode
    endpoint c searchTerm limit offset
  = call endpoint c searchTerm limit offset.
Proof.
  rewrite !searchEntity_eq. unfold withStatus.
  destruct (WS2RootURL c) as [u|]; [|reflexivity].
  destruct (http_NewRequest _ _ _) as [req|err]; [|reflexivity].
  by destruct (http_Do _) as [resp|msg].
Qed.

(** X9: a search on a freshly built client consults the network once, with a
    GET for root, endpoint and the three parameters, under the
    identification string of the constructor as the only header. *)
Theorem new_client_request
    endpoint rooturl appname version contact searchTerm limit offset
    u u' resp :
  url_Parse rooturl = inl u →
  url_Parse (URL_String u +:+ endpoint +:+ "?limit="
             +:+ intParamToString limit
             +:+ "&offset=" +:+ intParamToString offset
             +:+ "&query=" +:+ QueryEscape searchTerm) = inl u' →
  http_Do {| Method := "GET"; ReqURL := u';
             Header := {[ "User-Agent"%string
                          := [appname +:+ "/" +:+ version +:+ " ( "
                              +:+ contact +:+ " ) "] ]} |} = inl resp →
  call endpoint (NewWS2Client url_Parse rooturl appname version contact)
    searchTerm limit offset
  = Returned (Some (responseOf (xml_Decode (Body resp) zeroResult).1),
              DecodeFailure <$> (xml_Decode (Body resp) zeroResult).2).
Proof.
  intros Hroot Htarget Hdo. rewrite searchEntity_eq.
  unfold NewWS2Client, http_NewRequest, requestTarget, Header_Set.
  cbn [WS2RootURL userAgentHeader]. rewrite Hroot.
  rewrite Encode_searchParams.
  change ("?" +:+ "limit=" +:+ ?x)%string with ("?limit=" +:+ x).
  rewrite Htarget. cbn [Method ReqURL Header].
  rewrite insert_empty. by rewrite Hdo.
Qed.

(** X10: an implemented search that returns hands back a response, never nil,
    and an error that is nil or a decode failure. *)
Theorem returned_response_not_nil
    endpoint c searchTerm limit offset
    (orsp : option (SearchResponse (E := E))) (err : option error) :
  call endpoint c searchTerm limit offset = Returned (orsp, err) →
  is_Some orsp ∧ (err = None ∨ ∃ msg, err = Some (DecodeFailure msg)).
Proof.
  intros Hret. apply searchEntity_returned in Hret as (data & Hrsp & Herr).
  cbn [fst snd] in Hrsp, Herr. split; [by rewrite Hrsp | done].
Qed.

(** X11: an implemented search returns exactly when the client has a root URL,
    the target parses and the network answers; what the answer holds does
    not matter. *)
Theorem search_returns_iff endpoint c searchTerm limit offset :
  (∃ r, call endpoint c searchTerm limit offset = Returned r)
  ↔ ∃ u req resp,
      WS2RootURL c = Some u
      ∧ http_NewRequest url_Parse "GET"
          (requestTarget URL_String u endpoint
             (searchParams searchTerm limit offset)) = inl req
      ∧ http_Do (Header_Set req "User-Agent" (userAgentHeader c))
        = inl resp.
Proof.
  rewrite searchEntity_eq. split.
  - intros [r Hret].
    destruct (WS2RootURL c) as [u|]; [|discriminate].
    destruct (http_NewRequest _ _ _) as [req|err] eqn:Hreq; [|discriminate].
    destruct (http_Do _) as [resp|msg] eqn:Hdo; [|discriminate].
    by exists u, req, resp.
  - intros (u & req & resp & -> & -> & ->). by eexists.
Qed.

End CallFacts.

Lemma unparsable_root_panics_witness :
  SearchArtist Fixture.parse Fixture.render Fixture.net_full Fixture.decode
    (NewWS2Client Fixture.parse Fixture.bad_address
       "testapp" "1.0" "test@example.com") "Nirvana" 5 (-1)
  = Panic "invalid memory address or nil pointer dereference"
  ∧ SearchArtist Fixture.parse Fixture.render Fixture.net_full
      Fixture.decode
      (SetRootURL Fixture.parse Fixture.client Fixture.bad_address).1
      "Nirvana" 5 (-1)
    = Panic "invalid memory address or nil pointer dereference".
Proof.
  eapply (unparsable_root_panics Fixture.parse Fixture.render
            Fixture.net_full Fixture.decode "/artist" Fixture.client
            Fixture.bad_address).
  reflexivity.
Defined.

Lemma decode_success_returns_response_witness :
  SearchArtist Fixture.parse Fixture.render Fixture.net_full Fixture.decode
    Fixture.client "Nirvana" 5 (-1)
  = Returned
      (Some (responseOf {| ListHeader := {| Count := 3; Offset := 0 |};
                           Entries := Fixture.entries_full |}),
       None).
Proof.
  eapply (decode_success_returns_response Fixture.parse Fixture.render
            Fixture.net_full Fixture.decode "/artist" Fixture.client
            "Nirvana" 5 (-1)).
  - reflexivity.
  - vm_compute. reflexivity.
  - reflexivity.
  - vm_compute. reflexivity.
Defined.

Lemma new_client_request_witness :
  SearchArtist Fixture.parse Fixture.render Fixture.net_strict
    Fixture.decode Fixture.client "Nirvana" 5 (-1)
  = Returned
      (Some (responseOf
               (Fixture.decode Fixture.body_full zeroResult).1),
       DecodeFailure <$> (Fixture.decode Fixture.body_full zeroResult).2).
Proof.
  eapply (new_client_request Fixture.parse Fixture.render
            Fixture.net_strict Fixture.decode "/artist"
            "https://musicbrainz.org/ws/2" "testapp" "1.0"
            "test@example.com" "Nirvana" 5 (-1) _ _
            {| StatusCode := 200; Body := Fixture.body_full |}).
  - reflexivity.
  - vm_compute. reflexivity.
  - vm_compute. reflexivity.
Defined.

Lemma returned_response_not_nil_witness :
  is_Some (Some Fixture.response_full)
  ∧ ((None : option error) = None
     ∨ ∃ msg, (None : option error) = Some (DecodeFailure msg)).
Proof.
  apply (returned_response_not_nil Fixture.parse Fixture.render
           Fixture.net_full Fixture.decode "/artist" Fixture.client
           "Nirvana" 5 (-1) (Some Fixture.response_full) None).
  vm_compute. reflexivity.
Defined.

Example strict_network_refuses_other_requests :
  SearchArtist Fixture.parse Fixture.render Fixture.net_strict
    Fixture.decode Fixture.client "Nirvana" 6 (-1)
  = Fatal (TransportFailure "unexpected request").
Proof. vm_compute. reflexivity. Qed.
